(** * OAuth2SessionList: the paginated list of OAuth 2.0 sessions

    A shallow embedding of [frontend/src/components/OAuth2SessionList.tsx].
    The component is a function from the result of the pagination hook to a
    tree of React elements; the tree is modelled by the inductive [jsx], the
    hook result by the record [pagination]. *)

From Stdlib Require Import List String Bool Arith Lia.
Import ListNotations.
Open Scope string_scope.
Open Scope list_scope.

Set Implicit Arguments.
Local Set Warnings "-register-all".

(** ** Data selected by the fragment [OAuth2SessionList_user] (lines 27-39)

    [oauth2Sessions { edges { cursor node { id ...OAuth2Session_session } } }].
    The component never reads a field of [node]: its type stays a parameter. *)

Record edge (Node : Type) : Type := {
  cursor : string;
  node : Node
}.

Arguments cursor {Node} e.
Arguments node {Node} e.

Record connection (Node : Type) : Type := {
  edges : list (edge Node)
}.

Record OAuth2SessionList_user (Node : Type) : Type := {
  oauth2Sessions : connection Node
}.

(** What the component destructures from the hook (line 25):
    [const { data, loadNext, hasNext } = usePaginationFragment(...)].
    [Eff] is whatever a call of [loadNext] produces. *)
Record pagination (Node Eff : Type) : Type := {
  data : OAuth2SessionList_user Node;
  loadNext : nat -> Eff;
  hasNext : bool
}.

(** ** React elements, as far as the component builds them (lines 44-56) *)

Inductive jsx (Node Eff : Type) : Type :=
| null : jsx Node Eff
| array (items : list (jsx Node Eff)) : jsx Node Eff
| div (children : list (jsx Node Eff)) : jsx Node Eff
| h2 (className : string) (text : string) : jsx Node Eff
| button (className : string) (onClick : unit -> Eff) (text : string) : jsx Node Eff
| OAuth2Session (key : string) (session : Node) : jsx Node Eff.

Arguments null {Node Eff}.
Arguments array {Node Eff} items.
Arguments div {Node Eff} children.
Arguments h2 {Node Eff} className text.
Arguments button {Node Eff} className onClick text.
Arguments OAuth2Session {Node Eff} key session.

Section Component.

Context {Key Node Eff : Type}.

(** The [return (...)] of the component, lines 44-56. *)
Definition render (p : pagination Node Eff) : jsx Node Eff :=
  div
    [ h2 "text-lg" "List of OAuth 2.0 sessions:";
      array (map (fun n => OAuth2Session (cursor n) (node n))
                 (edges (oauth2Sessions (data p))));
      if hasNext p
      then button "bg-accent p-2 rounded" (fun _ => loadNext p 2) "Load more"
      else null ].

(** The component, lines 24-57: call the hook on [user], render its result. *)
Definition OAuth2SessionList
    (usePaginationFragment : Key -> pagination Node Eff) (user : Key)
  : jsx Node Eff :=
  render (usePaginationFragment user).

(** *** Observations on an element tree *)

(** The Session Item invocations of a tree, left to right: key and session. *)
Fixpoint sessionItems (j : jsx Node Eff) : list (string * Node) :=
  match j with
  | OAuth2Session k s => [(k, s)]
  | array l => flat_map sessionItems l
  | div l => flat_map sessionItems l
  | null | h2 _ _ | button _ _ _ => []
  end.

Definition itemKeys (j : jsx Node Eff) : list string :=
  map fst (sessionItems j).

Definition itemSessions (j : jsx Node Eff) : list Node :=
  map snd (sessionItems j).

(** The click handlers of the buttons of a tree, left to right. *)
Fixpoint controls (j : jsx Node Eff) : list (unit -> Eff) :=
  match j with
  | button _ h _ => [h]
  | array l => flat_map controls l
  | div l => flat_map controls l
  | null | h2 _ _ | OAuth2Session _ _ => []
  end.

Definition hasLoadMore (j : jsx Node Eff) : bool :=
  match controls j with
  | [] => false
  | _ :: _ => true
  end.

(** Invoking the load-more action: run the handler of the control, if the
    tree shows one. *)
Definition click (j : jsx Node Eff) : option Eff :=
  match controls j with
  | [] => None
  | h :: _ => Some (h tt)
  end.

(** The texts of the headings of a tree. *)
Fixpoint headings (j : jsx Node Eff) : list string :=
  match j with
  | h2 _ t => [t]
  | array l => flat_map headings l
  | div l => flat_map headings l
  | null | button _ _ _ | OAuth2Session _ _ => []
  end.

End Component.

(** Replacing every session reference of a tree; keys, headings and controls
    stay as they are. *)
Fixpoint jsx_map {A B Eff : Type} (f : A -> B) (j : jsx A Eff) : jsx B Eff :=
  match j with
  | null => null
  | array l => array (map (jsx_map f) l)
  | div l => div (map (jsx_map f) l)
  | h2 c t => h2 c t
  | button c h t => button c h t
  | OAuth2Session k s => OAuth2Session k (f s)
  end.

(** The structure of a tree with the session references erased. *)
Definition shape {A Eff : Type} (j : jsx A Eff) : jsx unit Eff :=
  jsx_map (fun _ => tt) j.

Definition edge_map {A B : Type} (f : A -> B) (e : edge A) : edge B :=
  {| cursor := cursor e; node := f (node e) |}.

(** A hook result with the given edges. *)
Definition withEdges {Node Eff : Type}
    (es : list (edge Node)) (ln : nat -> Eff) (h : bool) : pagination Node Eff :=
  {| data := {| oauth2Sessions := {| edges := es |} |};
     loadNext := ln;
     hasNext := h |}.

(** The visible parts of a tree: a heading with its text, a Session Item
    with its key, a button with its label. *)
Inductive part : Type :=
| Heading (text : string) : part
| Item (key : string) : part
| Control (label : string) : part.

(** The parts of a tree in document order. *)
Fixpoint outline {Node Eff : Type} (j : jsx Node Eff) : list part :=
  match j with
  | null => []
  | array l => flat_map outline l
  | div l => flat_map outline l
  | h2 _ t => [Heading t]
  | button _ _ t => [Control t]
  | OAuth2Session k _ => [Item k]
  end.

(** ** The pagination hook and the data source

    [usePaginationFragment] is imported from react-relay (line 15); its
    implementation is not part of the component.  The definitions of this
    part follow the specification of the Session List View. *)

(** Modelled from the spec: the Connection State that the hook
    [usePaginationFragment] keeps for one mount, "{ edges: ordered sequence
    of Session Edge, hasNext: boolean }"; the hook's state is missing from
    the source. *)
Record ConnectionState (Node : Type) : Type := {
  cs_edges : list (edge Node);
  cs_hasNext : bool
}.

(** Modelled from the spec: the pagination metadata of a page, "pageInfo:
    { hasNextPage }"; the response type of the data source is missing from
    the source. *)
Record pageInfo : Type := {
  hasNextPage : bool
}.

(** Modelled from the spec: a page returned by the data source, "{ edges:
    [{cursor, node}], pageInfo: { hasNextPage } }", where [pageInfo] may be
    missing; the response type of the data source is missing from the
    source. *)
Record response (Node : Type) : Type := {
  resp_edges : list (edge Node);
  resp_pageInfo : option pageInfo
}.

(** Modelled from the spec: how a page fetch ends, with a page or with a
    network or transport failure; the fetch of the hook is missing from the
    source. *)
Inductive outcome (Node : Type) : Type :=
| Fetched (r : response Node) : outcome Node
| FetchFailed : outcome Node.

Arguments FetchFailed {Node}.

(** Modelled from the spec: the request that [loadNext] of the hook sends,
    "the next page of a specified size"; [loadNext] is missing from the
    source. *)
Record pageRequest : Type := {
  first : nat
}.

Section DataSource.

Context {Key Node : Type}.

(** Modelled from the spec: the hook reads [hasNext] from a response,
    "missing pageInfo is treated as hasNext=false"; the hook's reading of
    the response is missing from the source. *)
Definition hasNextOf (r : response Node) : bool :=
  match resp_pageInfo r with
  | Some i => hasNextPage i
  | None => false
  end.

(** Modelled from the spec: the state on first render, "Idle with
    server-seeded first page"; the hook's initial load is missing from the
    source. *)
Definition mount (firstPage : response Node) : ConnectionState Node :=
  {| cs_edges := resp_edges firstPage; cs_hasNext := hasNextOf firstPage |}.

(** Modelled from the spec: a successful load of the hook "appends
    returned edges to the end of the existing sequence, then updates
    hasNext from the response"; the hook's store update is missing from
    the source. *)
Definition appendPage (s : ConnectionState Node) (r : response Node)
  : ConnectionState Node :=
  {| cs_edges := cs_edges s ++ resp_edges r; cs_hasNext := hasNextOf r |}.

(** Modelled from the spec: the end of a fetch, "Loading -> Idle(hasNext')
    on success, Loading -> Idle(hasNext, unchanged) on failure"; the
    hook's completion is missing from the source. *)
Definition settle (s : ConnectionState Node) (o : outcome Node)
  : ConnectionState Node :=
  match o with
  | Fetched r => appendPage s r
  | FetchFailed => s
  end.

(** Modelled from the spec: what the hook [usePaginationFragment] hands to
    the component for a Connection State, the edges held, the flag and a
    [loadNext] that asks for a page of the given size; the hook is missing
    from the source. *)
Definition usePaginationFragment (s : ConnectionState Node) (_ : Key)
  : pagination Node pageRequest :=
  {| data := {| oauth2Sessions := {| edges := cs_edges s |} |};
     loadNext := fun count => {| first := count |};
     hasNext := cs_hasNext s |}.

(** The component over that hook. *)
Definition view (s : ConnectionState Node) (user : Key)
  : jsx Node pageRequest :=
  OAuth2SessionList (usePaginationFragment s) user.

(** Modelled from the spec: one invocation of the load-more action,
    "Idle -> Loading -> Idle", started through the control that the
    component renders and ended by outcome [o]; [None] when the view shows
    no control to invoke.  The event loop between the click and the end of
    the fetch is missing from the source. *)
Definition loadMore (s : ConnectionState Node) (user : Key) (o : outcome Node)
  : option (ConnectionState Node) :=
  match click (view s user) with
  | Some _ => Some (settle s o)
  | None => None
  end.

(** Modelled from the spec: successive invocations within one mount
    lifecycle, each one ended before the next is started; the lifecycle is
    missing from the source. *)
Fixpoint loadMoreAll (s : ConnectionState Node) (user : Key)
    (os : list (outcome Node)) : option (ConnectionState Node) :=
  match os with
  | [] => Some s
  | o :: os' =>
      match loadMore s user o with
      | Some s' => loadMoreAll s' user os'
      | None => None
      end
  end.

(** The sum of the sizes of the given pages. *)
Definition pageTotal (rs : list (response Node)) : nat :=
  list_sum (map (fun r => List.length (resp_edges r)) rs).

End DataSource.

(** ** The scenario of the specification: sessions S1, S2, S3 *)

Module Scenario.

Definition sessionEdge (c : string) (n : string) : edge string :=
  {| cursor := c; node := n |}.

Definition firstPage : response string :=
  {| resp_edges := [sessionEdge "c1" "S1"; sessionEdge "c2" "S2"];
     resp_pageInfo := Some {| hasNextPage := true |} |}.

Definition secondPage : response string :=
  {| resp_edges := [sessionEdge "c3" "S3"];
     resp_pageInfo := Some {| hasNextPage := false |} |}.

Definition noPageInfo : response string :=
  {| resp_edges := [sessionEdge "c3" "S3"]; resp_pageInfo := None |}.

Definition mounted : ConnectionState string := mount firstPage.

End Scenario.

(** ** What [render] puts in the tree *)

Section RenderFacts.

Context {Node Eff : Type}.

Lemma sessionItems_of_edges (es : list (edge Node)) :
  flat_map (@sessionItems Node Eff)
           (map (fun n => OAuth2Session (cursor n) (node n)) es)
  = map (fun n => (cursor n, node n)) es.
Proof.
  induction es as [|e es IH]; simpl.
  - reflexivity.
  - now rewrite IH.
Qed.

Lemma controls_of_edges (es : list (edge Node)) :
  flat_map (@controls Node Eff)
           (map (fun n => OAuth2Session (cursor n) (node n)) es)
  = [].
Proof.
  induction es as [|e es IH]; simpl; auto.
Qed.

Lemma headings_of_edges (es : list (edge Node)) :
  flat_map (@headings Node Eff)
           (map (fun n => OAuth2Session (cursor n) (node n)) es)
  = [].
Proof.
  induction es as [|e es IH]; simpl; auto.
Qed.

Lemma sessionItems_render (p : pagination Node Eff) :
  sessionItems (render p)
  = map (fun n => (cursor n, node n)) (edges (oauth2Sessions (data p))).
Proof.
  unfold render; simpl.
  rewrite sessionItems_of_edges.
  destruct (hasNext p); simpl; now rewrite app_nil_r.
Qed.

Lemma controls_render (p : pagination Node Eff) :
  controls (render p)
  = if hasNext p then [fun _ : unit => loadNext p 2] else [].
Proof.
  unfold render; simpl.
  rewrite controls_of_edges.
  destruct (hasNext p); reflexivity.
Qed.

Lemma headings_render (p : pagination Node Eff) :
  headings (render p) = ["List of OAuth 2.0 sessions:"].
Proof.
  unfold render; simpl.
  rewrite headings_of_edges.
  destruct (hasNext p); reflexivity.
Qed.

Lemma itemKeys_render (p : pagination Node Eff) :
  itemKeys (render p) = map cursor (edges (oauth2Sessions (data p))).
Proof.
  unfold itemKeys.
  rewrite sessionItems_render, map_map.
  reflexivity.
Qed.

Lemma itemSessions_render (p : pagination Node Eff) :
  itemSessions (render p) = map node (edges (oauth2Sessions (data p))).
Proof.
  unfold itemSessions.
  rewrite sessionItems_render, map_map.
  reflexivity.
Qed.

Lemma hasLoadMore_render (p : pagination Node Eff) :
  hasLoadMore (render p) = hasNext p.
Proof.
  unfold hasLoadMore.
  rewrite controls_render.
  destruct (hasNext p); reflexivity.
Qed.

Lemma click_render (p : pagination Node Eff) :
  click (render p) = if hasNext p then Some (loadNext p 2) else None.
Proof.
  unfold click.
  rewrite controls_render.
  destruct (hasNext p); reflexivity.
Qed.

End RenderFacts.

(** ** Session references are passed through *)

Lemma jsx_map_items {A B Eff : Type} (f : A -> B) (es : list (edge A)) :
  map (@jsx_map A B Eff f) (map (fun n => OAuth2Session (cursor n) (node n)) es)
  = map (fun n => OAuth2Session (cursor n) (node n)) (map (edge_map f) es).
Proof.
  induction es as [|e es IH]; simpl.
  - reflexivity.
  - now rewrite IH.
Qed.

Lemma jsx_map_render {A B Eff : Type} (f : A -> B)
    (es : list (edge A)) (ln : nat -> Eff) (h : bool) :
  jsx_map f (render (withEdges es ln h))
  = render (withEdges (map (edge_map f) es) ln h).
Proof.
  unfold render; simpl.
  rewrite jsx_map_items.
  destruct h; reflexivity.
Qed.

Lemma erased_edges_of_cursors {A B : Type}
    (ea : list (edge A)) (eb : list (edge B)) :
  map cursor ea = map cursor eb ->
  map (edge_map (fun _ => tt)) ea = map (edge_map (fun _ => tt)) eb.
Proof.
  revert eb.
  induction ea as [|a ea IH]; intros [|b eb] Heq; simpl in *;
    try discriminate; auto.
  injection Heq as Hc Hrest.
  unfold edge_map at 1 3.
  rewrite Hc, (IH eb Hrest).
  reflexivity.
Qed.

(** ** The component *)

(** C2. In every render of the list the load-more control is present if and
    only if [hasNext] is true; when [hasNext] is false the tree holds no
    control at all. *)
Theorem load_more_control_iff_hasNext :
  forall (Key Node Eff : Type)
         (hook : Key -> pagination Node Eff) (user : Key),
    (hasLoadMore (OAuth2SessionList hook user) = true
     <-> hasNext (hook user) = true)
    /\ (hasNext (hook user) = false
        -> controls (OAuth2SessionList hook user) = []
           /\ click (OAuth2SessionList hook user) = None).
Proof.
  intros Key Node Eff hook user.
  unfold OAuth2SessionList.
  split.
  - rewrite hasLoadMore_render. tauto.
  - intros Hno.
    rewrite click_render, controls_render, Hno.
    split; reflexivity.
Qed.

Lemma load_more_control_iff_hasNext_witness :
  hasNext (withEdges (@nil (edge nat)) (fun c : nat => c) false) = false
  /\ controls (OAuth2SessionList
                 (fun _ : unit => withEdges (@nil (edge nat)) (fun c : nat => c) false)
                 tt) = [].
Proof.
  split.
  - reflexivity.
  - apply (load_more_control_iff_hasNext
             (fun _ : unit => withEdges (@nil (edge nat)) (fun c : nat => c) false) tt).
    reflexivity.
Defined.

(** C4. The list renders exactly one Session Item per edge, in edge order,
    whose key is the edge's cursor and whose session is the edge's node; when
    the cursors of the edges are pairwise distinct, so are the keys of the
    rendered items. *)
Theorem items_follow_edges :
  forall (Key Node Eff : Type)
         (hook : Key -> pagination Node Eff) (user : Key),
    let es := edges (oauth2Sessions (data (hook user))) in
    let v := OAuth2SessionList hook user in
    sessionItems v = map (fun e => (cursor e, node e)) es
    /\ List.length (sessionItems v) = List.length es
    /\ (forall i e, nth_error es i = Some e
                    -> nth_error (sessionItems v) i = Some (cursor e, node e))
    /\ itemKeys v = map cursor es
    /\ (NoDup (map cursor es) -> NoDup (itemKeys v)).
Proof.
  intros Key Node Eff hook user es v.
  assert (Hv : sessionItems v = map (fun e => (cursor e, node e)) es)
    by apply sessionItems_render.
  assert (Hk : itemKeys v = map cursor es) by apply itemKeys_render.
  repeat split.
  - exact Hv.
  - rewrite Hv. apply length_map.
  - intros i e Hi. rewrite Hv.
    exact (map_nth_error (fun e => (cursor e, node e)) i es Hi).
  - exact Hk.
  - intros Hnd. now rewrite Hk.
Qed.

Lemma items_follow_edges_witness :
  let es := [ {| cursor := "c1"; node := 1 |}; {| cursor := "c2"; node := 2 |} ] in
  NoDup (map cursor es)
  /\ NoDup (itemKeys (OAuth2SessionList
                        (fun _ : unit => withEdges es (fun c : nat => c) true) tt)).
Proof.
  intros es.
  assert (Hnd : NoDup (map cursor es)).
  { simpl. constructor.
    - simpl. intros [H | []]. discriminate H.
    - constructor; [ intros [] | constructor ]. }
  split.
  - exact Hnd.
  - apply (items_follow_edges (fun _ : unit => withEdges es (fun c : nat => c) true) tt).
    exact Hnd.
Defined.

(** C8. Every invocation of the load-more action calls [loadNext] with page
    size 2, whatever the edges held and whatever the hook: each control of
    the tree runs [loadNext 2], and invoking the action gives that call. *)
Theorem load_more_requests_two :
  forall (Key Node Eff : Type)
         (hook : Key -> pagination Node Eff) (user : Key),
    (forall h, In h (controls (OAuth2SessionList hook user))
               -> h tt = loadNext (hook user) 2)
    /\ (forall req, click (OAuth2SessionList hook user) = Some req
                    -> req = loadNext (hook user) 2).
Proof.
  intros Key Node Eff hook user.
  unfold OAuth2SessionList.
  rewrite click_render, controls_render.
  destruct (hasNext (hook user)); split.
  - intros h [<- | []]. reflexivity.
  - intros req Hreq. now inversion Hreq.
  - intros h [].
  - intros req Hreq. discriminate Hreq.
Qed.

Lemma load_more_requests_two_witness :
  click (view Scenario.mounted tt) = Some {| first := 2 |}
  /\ {| first := 2 |} = loadNext (usePaginationFragment Scenario.mounted tt) 2.
Proof.
  split.
  - reflexivity.
  - apply (proj2 (load_more_requests_two
                    (usePaginationFragment Scenario.mounted) tt)).
    reflexivity.
Defined.

(** C9. The list never looks into a session reference: two connections
    whose edges carry the same cursors, with arbitrary and even differently
    typed nodes, give trees of the same structure (same heading, same number
    of items, same keys, same load-more control), and the session handed to
    each item is the node of its edge, so that replacing the nodes before
    rendering or in the rendered tree is the same. *)
Theorem view_ignores_session_contents :
  forall (Key A B Eff : Type)
         (ea : list (edge A)) (eb : list (edge B))
         (ln : nat -> Eff) (h : bool) (user : Key),
    map cursor ea = map cursor eb ->
    let va := OAuth2SessionList (fun _ : Key => withEdges ea ln h) user in
    let vb := OAuth2SessionList (fun _ : Key => withEdges eb ln h) user in
    shape va = shape vb
    /\ headings va = headings vb
    /\ List.length (sessionItems va) = List.length (sessionItems vb)
    /\ itemKeys va = itemKeys vb
    /\ hasLoadMore va = hasLoadMore vb
    /\ controls va = controls vb
    /\ itemSessions va = map node ea
    /\ itemSessions vb = map node eb
    /\ (forall (C : Type) (f : A -> C),
          jsx_map f va
          = OAuth2SessionList
              (fun _ : Key => withEdges (map (edge_map f) ea) ln h) user).
Proof.
  intros Key A B Eff ea eb ln h user Hcur va vb.
  subst va vb; unfold OAuth2SessionList.
  repeat split.
  - unfold shape.
    rewrite !jsx_map_render.
    now rewrite (erased_edges_of_cursors ea eb Hcur).
  - now rewrite !headings_render.
  - rewrite !sessionItems_render; simpl.
    rewrite !length_map.
    rewrite <- (length_map cursor ea), Hcur.
    apply length_map.
  - rewrite !itemKeys_render. exact Hcur.
  - now rewrite !hasLoadMore_render.
  - now rewrite !controls_render.
  - apply itemSessions_render.
  - apply itemSessions_render.
  - intros C f. apply jsx_map_render.
Qed.

Lemma view_ignores_session_contents_witness :
  let ea := [ {| cursor := "c1"; node := 7 |} ] in
  let eb := [ {| cursor := "c1"; node := "S1" |} ] in
  map cursor ea = map cursor eb
  /\ shape (OAuth2SessionList (fun _ : unit => withEdges ea (fun c : nat => c) true) tt)
     = shape (OAuth2SessionList (fun _ : unit => withEdges eb (fun c : nat => c) true) tt).
Proof.
  intros ea eb.
  split.
  - reflexivity.
  - apply (view_ignores_session_contents ea eb (fun c : nat => c) true tt).
    reflexivity.
Defined.

(** C10. With no edge the list still renders: the heading, an empty
    sequence of Session Items and the load-more control exactly when
    [hasNext] is true; when [hasNext] is false, the heading and nothing
    else. *)
Theorem empty_connection_renders :
  forall (Key Node Eff : Type)
         (hook : Key -> pagination Node Eff) (user : Key),
    edges (oauth2Sessions (data (hook user))) = [] ->
    let v := OAuth2SessionList hook user in
    sessionItems v = []
    /\ headings v = ["List of OAuth 2.0 sessions:"]
    /\ v = div [ h2 "text-lg" "List of OAuth 2.0 sessions:";
                 array [];
                 if hasNext (hook user)
                 then button "bg-accent p-2 rounded"
                             (fun _ => loadNext (hook user) 2) "Load more"
                 else null ]
    /\ (hasNext (hook user) = false
        -> v = div [ h2 "text-lg" "List of OAuth 2.0 sessions:"; array []; null ]).
Proof.
  intros Key Node Eff hook user Hnil v.
  subst v; unfold OAuth2SessionList.
  repeat split.
  - now rewrite sessionItems_render, Hnil.
  - apply headings_render.
  - unfold render. now rewrite Hnil.
  - intros Hno. unfold render. now rewrite Hnil, Hno.
Qed.

Lemma empty_connection_renders_witness :
  let hook := fun _ : unit => withEdges (@nil (edge nat)) (fun c : nat => c) false in
  edges (oauth2Sessions (data (hook tt))) = []
  /\ OAuth2SessionList hook tt
     = div [ h2 "text-lg" "List of OAuth 2.0 sessions:"; array []; null ].
Proof.
  intros hook.
  split.
  - reflexivity.
  - apply (empty_connection_renders hook tt); reflexivity.
Defined.

(** ** Loading more pages *)

Section LoadMoreFacts.

Context {Key Node : Type}.
Implicit Types (s : ConnectionState Node) (r : response Node)
               (o : outcome Node) (user : Key).

Lemma view_hasLoadMore s user :
  hasLoadMore (view s user) = cs_hasNext s.
Proof.
  unfold view, OAuth2SessionList.
  now rewrite hasLoadMore_render.
Qed.

Lemma view_itemSessions s user :
  itemSessions (view s user) = map node (cs_edges s).
Proof.
  unfold view, OAuth2SessionList.
  now rewrite itemSessions_render.
Qed.

Lemma view_itemKeys s user :
  itemKeys (view s user) = map cursor (cs_edges s).
Proof.
  unfold view, OAuth2SessionList.
  now rewrite itemKeys_render.
Qed.

Lemma view_controls s user :
  controls (view s user)
  = if cs_hasNext s then [fun _ : unit => {| first := 2 |}] else [].
Proof.
  unfold view, OAuth2SessionList.
  now rewrite controls_render.
Qed.

Lemma loadMore_eq s user o :
  loadMore s user o = if cs_hasNext s then Some (settle s o) else None.
Proof.
  unfold loadMore, view, OAuth2SessionList.
  rewrite click_render; simpl.
  destruct (cs_hasNext s); reflexivity.
Qed.

Lemma loadMore_inv s user o s' :
  loadMore s user o = Some s' -> cs_hasNext s = true /\ s' = settle s o.
Proof.
  rewrite loadMore_eq.
  destruct (cs_hasNext s); intros H; [|discriminate H].
  now inversion H.
Qed.

Lemma loadMoreAll_app s user (os1 os2 : list (outcome Node)) :
  loadMoreAll s user (os1 ++ os2)
  = match loadMoreAll s user os1 with
    | Some s1 => loadMoreAll s1 user os2
    | None => None
    end.
Proof.
  revert s.
  induction os1 as [|o os1 IH]; intros s; simpl.
  - reflexivity.
  - destruct (loadMore s user o) as [s1|]; [apply IH | reflexivity].
Qed.

Lemma loadMoreAll_fetched_edges (rs : list (response Node)) :
  forall s user s',
    loadMoreAll s user (map (@Fetched Node) rs) = Some s' ->
    cs_edges s' = cs_edges s ++ List.concat (map (@resp_edges Node) rs).
Proof.
  induction rs as [|r rs IH]; intros s user s' Hrun; simpl in *.
  - inversion Hrun; subst. now rewrite app_nil_r.
  - destruct (loadMore s user (Fetched r)) as [s1|] eqn:Hstep;
      [|discriminate Hrun].
    apply loadMore_inv in Hstep as [_ ->].
    rewrite (IH _ _ _ Hrun); simpl.
    now rewrite app_assoc.
Qed.

Lemma length_pages (rs : list (response Node)) :
  List.length (List.concat (map (@resp_edges Node) rs)) = pageTotal rs.
Proof.
  unfold pageTotal.
  induction rs as [|r rs IH]; simpl.
  - reflexivity.
  - now rewrite length_app, IH.
Qed.

Lemma pageTotal_app (rs1 rs2 : list (response Node)) :
  pageTotal (rs1 ++ rs2) = pageTotal rs1 + pageTotal rs2.
Proof.
  unfold pageTotal.
  now rewrite map_app, list_sum_app.
Qed.

End LoadMoreFacts.

(** C1. A successful load appends the returned edges after the edges held,
    in their order, and takes [hasNext] from the response; through the
    control of the view this is what one invocation of load-more does, and
    the view then shows the old sessions followed by the new ones.  From
    the first page c1/S1, c2/S2 with [hasNext] true, one load-more answered
    by c3/S3 with [hasNext] false shows S1, S2, S3 in that order and no
    load-more control. *)
Theorem load_more_appends_page :
  (forall (Key Node : Type) (s : ConnectionState Node) (user : Key)
          (r : response Node),
      cs_edges (settle s (Fetched r)) = cs_edges s ++ resp_edges r
      /\ cs_hasNext (settle s (Fetched r)) = hasNextOf r
      /\ (forall i, resp_pageInfo r = Some i
                    -> cs_hasNext (settle s (Fetched r)) = hasNextPage i)
      /\ (cs_hasNext s = true
          -> loadMore s user (Fetched r) = Some (settle s (Fetched r)))
      /\ itemSessions (view (settle s (Fetched r)) user)
         = itemSessions (view s user) ++ map node (resp_edges r)
      /\ hasLoadMore (view (settle s (Fetched r)) user) = hasNextOf r)
  /\ (exists s' : ConnectionState string,
         loadMore Scenario.mounted tt (Fetched Scenario.secondPage) = Some s'
         /\ itemSessions (view s' tt) = ["S1"; "S2"; "S3"]
         /\ itemKeys (view s' tt) = ["c1"; "c2"; "c3"]
         /\ cs_hasNext s' = false
         /\ hasLoadMore (view s' tt) = false
         /\ controls (view s' tt) = []).
Proof.
  split.
  - intros Key Node s user r.
    split; [reflexivity|].
    split; [reflexivity|].
    split.
    { intros i Hi. simpl. unfold hasNextOf. now rewrite Hi. }
    split.
    { intros Hnext. now rewrite loadMore_eq, Hnext. }
    split.
    + rewrite !view_itemSessions; simpl. apply map_app.
    + now rewrite view_hasLoadMore.
  - exists (settle Scenario.mounted (Fetched Scenario.secondPage)).
    split; [reflexivity|].
    split; [reflexivity|].
    split; [reflexivity|].
    split; [reflexivity|].
    split; reflexivity.
Qed.

Lemma load_more_appends_page_witness :
  cs_hasNext Scenario.mounted = true
  /\ loadMore Scenario.mounted tt (Fetched Scenario.secondPage)
     = Some (settle Scenario.mounted (Fetched Scenario.secondPage)).
Proof.
  split.
  - reflexivity.
  - apply (proj1 load_more_appends_page unit string
                 Scenario.mounted tt Scenario.secondPage).
    reflexivity.
Defined.

(** C3. Along every sequence of successful load-more calls of one mount the
    edges only grow: the edges held after any number of the calls are kept,
    in place, as the beginning of the edges held after the later calls, and
    after each call the number of edges is the sum of the sizes of the pages
    returned so far, the first page included. *)
Theorem edges_only_grow :
  forall (Key Node : Type) (firstPage : response Node) (user : Key)
         (before after : list (response Node)) (s2 : ConnectionState Node),
    loadMoreAll (mount firstPage) user (map (@Fetched Node) (before ++ after))
    = Some s2 ->
    exists s1 : ConnectionState Node,
      loadMoreAll (mount firstPage) user (map (@Fetched Node) before) = Some s1
      /\ loadMoreAll s1 user (map (@Fetched Node) after) = Some s2
      /\ List.length (cs_edges s1) = pageTotal (firstPage :: before)
      /\ List.length (cs_edges s2) = pageTotal (firstPage :: before ++ after)
      /\ List.length (cs_edges s1) <= List.length (cs_edges s2)
      /\ cs_edges s2 = cs_edges s1 ++ List.concat (map (@resp_edges Node) after)
      /\ (forall i e, nth_error (cs_edges s1) i = Some e
                      -> nth_error (cs_edges s2) i = Some e).
Proof.
  intros Key Node firstPage user before after s2 Hrun.
  rewrite map_app, loadMoreAll_app in Hrun.
  destruct (loadMoreAll (mount firstPage) user (map (@Fetched Node) before))
    as [s1|] eqn:H1; [|discriminate Hrun].
  exists s1.
  pose proof (loadMoreAll_fetched_edges _ _ _ H1) as E1.
  pose proof (loadMoreAll_fetched_edges _ _ _ Hrun) as E2.
  assert (L1 : List.length (cs_edges s1) = pageTotal (firstPage :: before)).
  { rewrite E1, length_app, length_pages. reflexivity. }
  assert (L2 : List.length (cs_edges s2)
               = List.length (cs_edges s1) + pageTotal after).
  { rewrite E2, length_app, length_pages. reflexivity. }
  repeat split; auto.
  - rewrite L2, L1.
    change (firstPage :: before ++ after) with ((firstPage :: before) ++ after).
    now rewrite pageTotal_app.
  - lia.
  - intros i e Hi. rewrite E2.
    rewrite nth_error_app1; [exact Hi|].
    apply nth_error_Some. congruence.
Qed.

Lemma edges_only_grow_witness :
  loadMoreAll (mount Scenario.firstPage) tt
              (map (@Fetched string) ([] ++ [Scenario.secondPage]))
  = Some (settle Scenario.mounted (Fetched Scenario.secondPage))
  /\ exists s1 : ConnectionState string,
       loadMoreAll (mount Scenario.firstPage) tt (map (@Fetched string) [])
       = Some s1
       /\ List.length (cs_edges s1) = 2
       /\ List.length (cs_edges (settle Scenario.mounted
                                        (Fetched Scenario.secondPage))) = 3.
Proof.
  assert (Hrun : loadMoreAll (mount Scenario.firstPage) tt
                   (map (@Fetched string) ([] ++ [Scenario.secondPage]))
                 = Some (settle Scenario.mounted (Fetched Scenario.secondPage)))
    by reflexivity.
  split.
  - exact Hrun.
  - destruct (edges_only_grow Scenario.firstPage tt [] [Scenario.secondPage] Hrun)
      as (s1 & H1 & _ & L1 & L2 & _).
    exists s1.
    repeat split; assumption.
Defined.

(** A sequence of successful loads can be carried out as long as every page
    but the last one reports a next page. *)
Lemma loadMoreAll_fetched_defined {Key Node : Type} (user : Key)
    (rs : list (response Node)) :
  forall s : ConnectionState Node,
    cs_hasNext s = true ->
    Forall (fun r => hasNextOf r = true) (removelast rs) ->
    exists s', loadMoreAll s user (map (@Fetched Node) rs) = Some s'.
Proof.
  induction rs as [|r rs IH]; intros s Hs Hall.
  - now exists s.
  - cbn [map loadMoreAll].
    rewrite loadMore_eq, Hs.
    destruct rs as [|r' rs].
    + simpl. now eexists.
    + change (removelast (r :: r' :: rs)) with (r :: removelast (r' :: rs)) in Hall.
      inversion Hall as [|? ? Hr Hrest]; subst.
      apply IH; [exact Hr | exact Hrest].
Qed.

(** C7. A response without [pageInfo] is read as [hasNext] false, on the
    first load and on a later one: the view then shows no load-more control
    and no further load can be invoked, whatever the state before. *)
Theorem missing_pageInfo_fails_safe :
  forall (Key Node : Type) (s : ConnectionState Node) (user : Key)
         (r : response Node),
    resp_pageInfo r = None ->
    hasNextOf r = false
    /\ cs_hasNext (settle s (Fetched r)) = false
    /\ hasLoadMore (view (settle s (Fetched r)) user) = false
    /\ controls (view (settle s (Fetched r)) user) = []
    /\ (forall o os, loadMoreAll (settle s (Fetched r)) user (o :: os) = None)
    /\ hasLoadMore (view (mount r) user) = false
    /\ (forall o os, loadMoreAll (mount r) user (o :: os) = None).
Proof.
  intros Key Node s user r Hmissing.
  assert (Hno : hasNextOf r = false) by (unfold hasNextOf; now rewrite Hmissing).
  split; [exact Hno|].
  split; [exact Hno|].
  split; [rewrite view_hasLoadMore; exact Hno|].
  split; [rewrite view_controls; simpl; now rewrite Hno|].
  split; [intros o os; simpl; rewrite loadMore_eq; simpl; now rewrite Hno|].
  split; [rewrite view_hasLoadMore; exact Hno|].
  intros o os; simpl; rewrite loadMore_eq; simpl; now rewrite Hno.
Qed.

Lemma missing_pageInfo_fails_safe_witness :
  resp_pageInfo Scenario.noPageInfo = None
  /\ hasLoadMore (view (settle Scenario.mounted (Fetched Scenario.noPageInfo)) tt)
     = false.
Proof.
  split.
  - reflexivity.
  - apply (missing_pageInfo_fails_safe Scenario.mounted tt Scenario.noPageInfo).
    reflexivity.
Defined.

(** C6, as stated, does not hold: after a load-more that failed, with the
    edges and [hasNext] left as they were, the tree rendered is the very
    tree rendered before the attempt, so nothing in it tells the user of the
    failure. *)
Lemma failed_load_is_not_surfaced :
  ~ (exists s' : ConnectionState string,
        loadMore Scenario.mounted tt FetchFailed = Some s'
        /\ cs_edges s' = cs_edges Scenario.mounted
        /\ cs_hasNext s' = cs_hasNext Scenario.mounted
        /\ view s' tt <> view Scenario.mounted tt).
Proof.
  intros (s' & Hload & _ & _ & Hdiffers).
  apply loadMore_inv in Hload as [_ ->].
  apply Hdiffers.
  reflexivity.
Qed.

(** C6, amended. A load-more that fails leaves the Connection State as it
    was, edges and [hasNext]; the view renders the same tree as before the
    attempt, which still holds the sessions loaded so far and the load-more
    control, so that the action can be invoked again; the tree holds no sign
    of the failure. *)
Theorem failed_load_keeps_state :
  forall (Key Node : Type) (s : ConnectionState Node) (user : Key),
    cs_hasNext s = true ->
    loadMore s user FetchFailed = Some s
    /\ (forall s', loadMore s user FetchFailed = Some s'
                   -> cs_edges s' = cs_edges s
                      /\ cs_hasNext s' = cs_hasNext s
                      /\ view s' user = view s user
                      /\ itemSessions (view s' user) = map node (cs_edges s)
                      /\ hasLoadMore (view s' user) = true
                      /\ forall o, loadMore s' user o = Some (settle s o)).
Proof.
  intros Key Node s user Hnext.
  split.
  - now rewrite loadMore_eq, Hnext.
  - intros s' Hload.
    apply loadMore_inv in Hload as [_ ->]; simpl.
    split; [reflexivity|].
    split; [reflexivity|].
    split; [reflexivity|].
    split; [apply view_itemSessions|].
    split; [now rewrite view_hasLoadMore|].
    intros o. now rewrite loadMore_eq, Hnext.
Qed.

Lemma failed_load_keeps_state_witness :
  cs_hasNext Scenario.mounted = true
  /\ loadMore Scenario.mounted tt FetchFailed = Some Scenario.mounted.
Proof.
  split.
  - reflexivity.
  - exact (proj1 (failed_load_keeps_state Scenario.mounted tt eq_refl)).
Defined.

(** ** Further properties of the component *)

Lemma outline_of_edges {Node Eff : Type} (es : list (edge Node)) :
  flat_map (@outline Node Eff)
           (map (fun n => OAuth2Session (cursor n) (node n)) es)
  = map Item (map cursor es).
Proof.
  induction es as [|e es IH]; simpl.
  - reflexivity.
  - now rewrite IH.
Qed.

Lemma edges_of_items {Node : Type} (l1 l2 : list (edge Node)) :
  map (fun e => (cursor e, node e)) l1 = map (fun e => (cursor e, node e)) l2 ->
  l1 = l2.
Proof.
  revert l2.
  induction l1 as [|[c1 n1] l1 IH]; intros [|[c2 n2] l2] Heq; simpl in Heq;
    try discriminate Heq.
  - reflexivity.
  - injection Heq as Hc Hn Hrest.
    subst.
    now rewrite (IH l2 Hrest).
Qed.

(** X1. Document order of the list: the heading comes first, once; then one
    item per edge, keyed by the cursors in edge order; then, last and at most
    once, the "Load more" button, there exactly when [hasNext] is true.  The
    tree has no other visible part. *)
Theorem outline_of_list :
  forall (Key Node Eff : Type)
         (hook : Key -> pagination Node Eff) (user : Key),
    let p := hook user in
    let es := edges (oauth2Sessions (data p)) in
    let v := OAuth2SessionList hook user in
    outline v
    = Heading "List of OAuth 2.0 sessions:"
        :: map Item (map cursor es)
        ++ (if hasNext p then [Control "Load more"] else [])
    /\ List.length (outline v)
       = 1 + List.length es + (if hasNext p then 1 else 0)
    /\ List.length (headings v) = 1
    /\ List.length (controls v) <= 1.
Proof.
  intros Key Node Eff hook user p es v.
  assert (Hout : outline v
                 = Heading "List of OAuth 2.0 sessions:"
                     :: map Item (map cursor es)
                     ++ (if hasNext p then [Control "Load more"] else [])).
  { subst v; unfold OAuth2SessionList, render; fold p; simpl.
    rewrite outline_of_edges; fold es.
    destruct (hasNext p); simpl; now rewrite ?app_nil_r. }
  split; [exact Hout|].
  split.
  { rewrite Hout; simpl.
    rewrite length_app, !length_map.
    destruct (hasNext p); simpl; lia. }
  subst v; unfold OAuth2SessionList; fold p.
  rewrite headings_render, controls_render.
  destruct (hasNext p); simpl; split; lia.
Qed.

(** X2. Rendering again after edges were added at the end keeps every item
    rendered before, key and session, at its position, and adds one item per
    new edge after them, whatever [hasNext] and [loadNext] have become. *)
Theorem appended_edges_keep_items :
  forall (Key Node Eff : Type)
         (hook hook' : Key -> pagination Node Eff) (user : Key)
         (more : list (edge Node)),
    edges (oauth2Sessions (data (hook' user)))
    = edges (oauth2Sessions (data (hook user))) ++ more ->
    let before := OAuth2SessionList hook user in
    let after := OAuth2SessionList hook' user in
    sessionItems after
    = sessionItems before ++ map (fun e => (cursor e, node e)) more
    /\ itemKeys after = itemKeys before ++ map cursor more
    /\ List.length (sessionItems after)
       = List.length (sessionItems before) + List.length more
    /\ (forall i it, nth_error (sessionItems before) i = Some it
                     -> nth_error (sessionItems after) i = Some it).
Proof.
  intros Key Node Eff hook hook' user more Hmore before after.
  assert (Hitems : sessionItems after
                   = sessionItems before ++ map (fun e => (cursor e, node e)) more).
  { subst before after; unfold OAuth2SessionList.
    rewrite !sessionItems_render, Hmore.
    apply map_app. }
  split; [exact Hitems|].
  split.
  { unfold itemKeys. rewrite Hitems, map_app, map_map. reflexivity. }
  split.
  { rewrite Hitems, length_app, length_map. reflexivity. }
  intros i it Hi.
  rewrite Hitems, nth_error_app1; [exact Hi|].
  apply nth_error_Some. congruence.
Qed.

Lemma appended_edges_keep_items_witness :
  let es := [ {| cursor := "c1"; node := 1 |}; {| cursor := "c2"; node := 2 |} ] in
  let more := [ {| cursor := "c3"; node := 3 |} ] in
  edges (oauth2Sessions (data (withEdges (es ++ more) (fun c : nat => c) false)))
  = edges (oauth2Sessions (data (withEdges es (fun c : nat => c) true))) ++ more
  /\ itemKeys (OAuth2SessionList
                 (fun _ : unit => withEdges (es ++ more) (fun c : nat => c) false) tt)
     = itemKeys (OAuth2SessionList
                   (fun _ : unit => withEdges es (fun c : nat => c) true) tt)
       ++ map cursor more.
Proof.
  intros es more.
  split.
  - reflexivity.
  - apply (appended_edges_keep_items
             (fun _ : unit => withEdges es (fun c : nat => c) true)
             (fun _ : unit => withEdges (es ++ more) (fun c : nat => c) false)
             tt more).
    reflexivity.
Defined.

(** X3. The tree depends on the hook result through its edges, [hasNext]
    and, when the button is shown, the call [loadNext 2], and on nothing
    else; conversely the tree determines them: no edge is dropped, merged or
    reordered on the way to the tree, and two results with different edges
    or a different [hasNext] never render alike. *)
Theorem tree_determines_inputs :
  forall (Key Node Eff : Type)
         (hook hook' : Key -> pagination Node Eff) (user user' : Key),
    let p := hook user in
    let q := hook' user' in
    OAuth2SessionList hook user = OAuth2SessionList hook' user'
    <-> (edges (oauth2Sessions (data p)) = edges (oauth2Sessions (data q))
         /\ hasNext p = hasNext q
         /\ (hasNext p = true -> loadNext p 2 = loadNext q 2)).
Proof.
  intros Key Node Eff hook hook' user user' p q.
  unfold OAuth2SessionList; fold p q.
  split.
  - intros Htree.
    assert (Hnext : hasNext p = hasNext q).
    { apply (f_equal hasLoadMore) in Htree.
      now rewrite !hasLoadMore_render in Htree. }
    split; [|split].
    + apply (f_equal sessionItems) in Htree.
      rewrite !sessionItems_render in Htree.
      now apply edges_of_items.
    + exact Hnext.
    + intros Hp.
      apply (f_equal click) in Htree.
      rewrite !click_render, <- Hnext, Hp in Htree.
      now injection Htree.
  - intros (Hedges & Hnext & Hcall).
    unfold render.
    rewrite Hedges, <- Hnext.
    destruct (hasNext p).
    + now rewrite (Hcall eq_refl).
    + reflexivity.
Qed.

Lemma tree_determines_inputs_witness :
  let p := withEdges [ {| cursor := "c1"; node := 1 |} ] (fun c : nat => c) true in
  let q := withEdges [ {| cursor := "c1"; node := 1 |} ] (fun c : nat => 2) true in
  (edges (oauth2Sessions (data p)) = edges (oauth2Sessions (data q))
   /\ hasNext p = hasNext q
   /\ (hasNext p = true -> loadNext p 2 = loadNext q 2))
  /\ OAuth2SessionList (fun _ : unit => p) tt = OAuth2SessionList (fun _ : unit => q) tt.
Proof.
  intros p q.
  assert (Hsame : edges (oauth2Sessions (data p)) = edges (oauth2Sessions (data q))
                  /\ hasNext p = hasNext q
                  /\ (hasNext p = true -> loadNext p 2 = loadNext q 2)).
  { split; [reflexivity|]. split; [reflexivity|]. intros _. reflexivity. }
  split.
  - exact Hsame.
  - exact (proj2 (tree_determines_inputs (fun _ : unit => p) (fun _ : unit => q) tt tt)
                 Hsame).
Defined.

(** X4. The list does not remove or merge edges whose cursors repeat: when
    two different positions of the edge list carry the same cursor, both
    edges are rendered, each with its own session, under the same key, so
    the keys of the rendered items are not pairwise distinct. *)
Theorem repeated_cursor_repeats_key :
  forall (Key Node Eff : Type)
         (hook : Key -> pagination Node Eff) (user : Key)
         (i j : nat) (e1 e2 : edge Node),
    let es := edges (oauth2Sessions (data (hook user))) in
    let v := OAuth2SessionList hook user in
    i <> j ->
    nth_error es i = Some e1 ->
    nth_error es j = Some e2 ->
    cursor e1 = cursor e2 ->
    nth_error (sessionItems v) i = Some (cursor e1, node e1)
    /\ nth_error (sessionItems v) j = Some (cursor e1, node e2)
    /\ List.length (sessionItems v) = List.length es
    /\ ~ NoDup (itemKeys v).
Proof.
  intros Key Node Eff hook user i j e1 e2 es v Hij Hi Hj Hcur.
  assert (Hv : sessionItems v = map (fun e => (cursor e, node e)) es)
    by apply sessionItems_render.
  assert (Hk : itemKeys v = map cursor es) by apply itemKeys_render.
  split.
  { rewrite Hv. exact (map_nth_error (fun e => (cursor e, node e)) i es Hi). }
  split.
  { rewrite Hv, Hcur. exact (map_nth_error (fun e => (cursor e, node e)) j es Hj). }
  split.
  { rewrite Hv. apply length_map. }
  rewrite Hk.
  intros Hnd.
  apply Hij.
  apply (proj1 (NoDup_nth_error (map cursor es)) Hnd).
  - rewrite length_map. apply nth_error_Some. congruence.
  - rewrite (map_nth_error cursor i es Hi), (map_nth_error cursor j es Hj).
    now rewrite Hcur.
Qed.

Lemma repeated_cursor_repeats_key_witness :
  let e1 := {| cursor := "c1"; node := 1 |} in
  let e2 := {| cursor := "c1"; node := 2 |} in
  let hook := fun _ : unit => withEdges [e1; e2] (fun c : nat => c) false in
  (0 <> 1 /\ nth_error (edges (oauth2Sessions (data (hook tt)))) 0 = Some e1
   /\ nth_error (edges (oauth2Sessions (data (hook tt)))) 1 = Some e2
   /\ cursor e1 = cursor e2)
  /\ ~ NoDup (itemKeys (OAuth2SessionList hook tt)).
Proof.
  intros e1 e2 hook.
  assert (H01 : 0 <> 1) by lia.
  split.
  - split; [exact H01|]. split; [reflexivity|]. split; reflexivity.
  - apply (repeated_cursor_repeats_key hook tt (i:=0) (j:=1) (e1:=e1) (e2:=e2)
             H01 eq_refl eq_refl eq_refl).
Defined.
